(** * Praxis AQT tensor quantizer ([praxis/layers/quantization/aqt.py])

    A shallow embedding of [TensorQuantizer] and of the JAX operations it
    calls, followed by the properties of the quantizer.

    Numbers.  The arithmetic of the source is carried out on exact rational
    numbers extended with the three IEEE-754 special values (+inf, -inf,
    NaN), so that a division by zero yields what [jnp] yields instead of
    failing.  The rounding error of the tensor formats is not modelled: a
    [dtype] is a tag carried by a tensor (and the selector of
    [jnp.finfo(dtype).eps]), [astype] keeps the values, and signed zeros are
    not distinguished.  The two scalar methods that compute the clip bounds
    on Python floats are also evaluated in IEEE-754 binary64, where they
    return the same numbers for every precision from 1 to 23.

    Tensors.  An array is a nested list; [jnp.max] over [contract_dims]
    raises on an axis out of bounds, a repeated axis or an empty axis, as
    [jnp] does.

    Gradients.  [jax.lax.stop_gradient] is invisible on forward values, so the
    element-wise code is written once over an interface of array elements
    with two instances: plain forward values and dual numbers (value,
    tangent), the latter following the JVP rules JAX attaches to each
    primitive. *)

From Stdlib Require Import ZArith QArith Qcanon Qround Qpower Lqa Lia.
From Stdlib Require Import List String Bool SpecFloat.
Import ListNotations.

Local Open Scope Z_scope.

(** ** Exceptions and the error monad *)

Inductive exn : Type :=
| AssertionError (msg : string)
| TypeError (msg : string)
| ValueError (msg : string).

Inductive result (A : Type) : Type :=
| OK (a : A)
| Raise (e : exn).

Arguments OK {A} a.
Arguments Raise {A} e.

Definition bind {A B : Type} (m : result A) (k : A -> result B) : result B :=
  match m with
  | OK a => k a
  | Raise e => Raise e
  end.

Notation "x <- m ;; k" := (bind m (fun x => k))
  (at level 61, m at next level, right associativity).

Fixpoint sequence {A : Type} (l : list (result A)) : result (list A) :=
  match l with
  | [] => OK []
  | m :: l' => a <- m ;; r <- sequence l' ;; OK (a :: r)
  end.

(** ** Extended rationals: the values a float can take *)

Inductive float : Type :=
| Fin (q : Qc)
| PInf
| NInf
| NaN.

Definition Qc_ltb (x y : Qc) : bool :=
  match (x ?= y)%Qc with Lt => true | _ => false end.

Definition Qc_leb (x y : Qc) : bool :=
  match (x ?= y)%Qc with Gt => false | _ => true end.

Definition Qcfloor (q : Qc) : Z := Qfloor q.

Definition Z2Qc (z : Z) : Qc := Q2Qc (inject_Z z).

(** [2.0 ** p] for an integer [p] of either sign. *)
Definition pow2 (p : Z) : Qc := Q2Qc (2 ^ p)%Q.

Definition fzero : float := Fin 0%Qc.
Definition fone : float := Fin 1%Qc.
Definition ftwo : float := Fin (Z2Qc 2).
Definition fhalf : float := Fin (Q2Qc (1 # 2)).

Definition is_nan (a : float) : bool :=
  match a with NaN => true | _ => false end.

Definition is_finite (a : float) : bool :=
  match a with Fin _ => true | _ => false end.

Definition fopp (a : float) : float :=
  match a with
  | Fin x => Fin (- x)%Qc
  | PInf => NInf
  | NInf => PInf
  | NaN => NaN
  end.

Definition fadd (a b : float) : float :=
  match a, b with
  | NaN, _ | _, NaN => NaN
  | Fin x, Fin y => Fin (x + y)%Qc
  | PInf, NInf | NInf, PInf => NaN
  | PInf, _ | _, PInf => PInf
  | NInf, _ | _, NInf => NInf
  end.

Definition fsub (a b : float) : float := fadd a (fopp b).

(** Sign of a finite value as a comparison with zero. *)
Definition Qc_sgn (x : Qc) : comparison := (x ?= 0)%Qc.

Definition fmul (a b : float) : float :=
  match a, b with
  | NaN, _ | _, NaN => NaN
  | Fin x, Fin y => Fin (x * y)%Qc
  | Fin x, PInf | PInf, Fin x =>
      match Qc_sgn x with Eq => NaN | Gt => PInf | Lt => NInf end
  | Fin x, NInf | NInf, Fin x =>
      match Qc_sgn x with Eq => NaN | Gt => NInf | Lt => PInf end
  | PInf, PInf | NInf, NInf => PInf
  | PInf, NInf | NInf, PInf => NaN
  end.

(** Division follows IEEE-754: a non-zero value over zero is an infinity,
    zero over zero is NaN.  The zero divisor is taken as +0. *)
Definition fdiv (a b : float) : float :=
  match a, b with
  | NaN, _ | _, NaN => NaN
  | Fin x, Fin y =>
      match Qc_sgn y with
      | Eq => match Qc_sgn x with Eq => NaN | Gt => PInf | Lt => NInf end
      | _ => Fin (x / y)%Qc
      end
  | Fin _, PInf | Fin _, NInf => fzero
  | PInf, Fin y => match Qc_sgn y with Lt => NInf | _ => PInf end
  | NInf, Fin y => match Qc_sgn y with Lt => PInf | _ => NInf end
  | PInf, PInf | PInf, NInf | NInf, PInf | NInf, NInf => NaN
  end.

Definition fabs (a : float) : float :=
  match a with
  | Fin x => Fin (if Qc_ltb x 0 then - x else x)%Qc
  | PInf | NInf => PInf
  | NaN => NaN
  end.

Definition ffloor (a : float) : float :=
  match a with
  | Fin x => Fin (Z2Qc (Qcfloor x))
  | _ => a
  end.

(** Comparisons are false as soon as one side is NaN. *)
Definition flt (a b : float) : bool :=
  match a, b with
  | NaN, _ | _, NaN => false
  | Fin x, Fin y => Qc_ltb x y
  | _, NInf | PInf, _ => false
  | NInf, _ | _, PInf => true
  end.

Definition fle (a b : float) : bool :=
  match a, b with
  | NaN, _ | _, NaN => false
  | Fin x, Fin y => Qc_leb x y
  | NInf, _ | _, PInf => true
  | PInf, _ | _, NInf => false
  end.

Definition feqb (a b : float) : bool :=
  match a, b with
  | Fin x, Fin y => Qc_eq_bool x y
  | PInf, PInf | NInf, NInf => true
  | _, _ => false
  end.

(** [jnp.maximum] and [jnp.minimum] propagate NaN. *)
Definition fmax (a b : float) : float :=
  match a, b with
  | NaN, _ | _, NaN => NaN
  | _, _ => if fle a b then b else a
  end.

Definition fmin (a b : float) : float :=
  match a, b with
  | NaN, _ | _, NaN => NaN
  | _, _ => if fle a b then a else b
  end.

(** [jnp.sign]: -1, 0 or 1, NaN on NaN. *)
Definition fsign (a : float) : float :=
  match a with
  | Fin x => match Qc_sgn x with
             | Eq => fzero
             | Gt => fone
             | Lt => Fin (- (1))%Qc
             end
  | PInf => fone
  | NInf => Fin (- (1))%Qc
  | NaN => NaN
  end.

(** ** Array elements: forward values and dual numbers

    The operations [aqt.py] applies to the elements of a tensor.  [lift]
    injects a Python scalar (a weakly typed constant). *)

Class Element (T : Type) : Type := {
  lift : float -> T;
  add : T -> T -> T;
  sub : T -> T -> T;
  div : T -> T -> T;
  abs : T -> T;
  maximum : T -> T -> T;
  minimum : T -> T -> T;
  floor : T -> T;
  stop_gradient : T -> T;
  eq_scalar : T -> float -> bool
}.

(** Forward values: [stop_gradient] is the identity. *)
#[export] Instance float_Element : Element float := {|
  lift := fun c => c;
  add := fadd;
  sub := fsub;
  div := fdiv;
  abs := fabs;
  maximum := fmax;
  minimum := fmin;
  floor := ffloor;
  stop_gradient := fun a => a;
  eq_scalar := feqb
|}.

(** Dual numbers: a value together with the tangent pushed forward by
    [jax.jvp]. *)
Record dual : Type := mkDual { primal : float; tangent : float }.

(** [lax._balanced_eq x z y]: the share of the tangent of [x] when the
    result of a maximum or minimum of [x] and [y] is [z]; a tie splits it. *)
Definition balanced_eq (x z y : float) : float :=
  if feqb x z then (if feqb y z then fhalf else fone) else fzero.

Definition dual_maximum (a b : dual) : dual :=
  let ans := fmax (primal a) (primal b) in
  mkDual ans
    (fadd (fmul (tangent a) (balanced_eq (primal a) ans (primal b)))
          (fmul (tangent b) (balanced_eq (primal b) ans (primal a)))).

Definition dual_minimum (a b : dual) : dual :=
  let ans := fmin (primal a) (primal b) in
  mkDual ans
    (fadd (fmul (tangent a) (balanced_eq (primal a) ans (primal b)))
          (fmul (tangent b) (balanced_eq (primal b) ans (primal a)))).

(** JVP of [x / y]: [g / y] for [x] and [-g * (x / y) / y] for [y]. *)
Definition dual_div (a b : dual) : dual :=
  let ans := fdiv (primal a) (primal b) in
  mkDual ans
    (fadd (fdiv (tangent a) (primal b))
          (fdiv (fmul (fopp (tangent b)) ans) (primal b))).

#[export] Instance dual_Element : Element dual := {|
  lift := fun c => mkDual c fzero;
  add := fun a b => mkDual (fadd (primal a) (primal b))
                           (fadd (tangent a) (tangent b));
  sub := fun a b => mkDual (fsub (primal a) (primal b))
                           (fsub (tangent a) (tangent b));
  div := dual_div;
  abs := fun a => mkDual (fabs (primal a))
                         (fmul (tangent a) (fsign (primal a)));
  maximum := dual_maximum;
  minimum := dual_minimum;
  floor := fun a => mkDual (ffloor (primal a)) fzero;
  stop_gradient := fun a => mkDual (primal a) fzero;
  eq_scalar := fun a c => feqb (primal a) c
|}.

(** ** dtypes and tensors *)

Inductive dtype : Type := bfloat16 | float16 | float32 | float64.

(** [jnp.finfo(dtype).eps]: the gap between 1 and the next value. *)
Definition finfo_eps (d : dtype) : float :=
  match d with
  | bfloat16 => Fin (pow2 (-7))
  | float16 => Fin (pow2 (-10))
  | float32 => Fin (pow2 (-23))
  | float64 => Fin (pow2 (-52))
  end.

(** An n-dimensional array as nested lists; a 0-dimensional array is a
    [Scalar]. *)
#[warnings="-register-all"] Inductive ndarray (A : Type) : Type :=
| Scalar (a : A)
| Dim (l : list (ndarray A)).

Arguments Scalar {A} a.
Arguments Dim {A} l.

Fixpoint tmap {A B : Type} (f : A -> B) (t : ndarray A) : ndarray B :=
  match t with
  | Scalar a => Scalar (f a)
  | Dim l => Dim (map (tmap f) l)
  end.

(** Element-wise combination of two arrays.  The quantizer only combines
    arrays of one shape; a 0-dimensional operand is broadcast. *)
Fixpoint tmap2 {A B C : Type} (f : A -> B -> C)
    (t : ndarray A) (u : ndarray B) {struct t} : ndarray C :=
  match t, u with
  | Scalar a, Scalar b => Scalar (f a b)
  | Dim l, Dim m =>
      Dim ((fix zip (l : list (ndarray A)) (m : list (ndarray B)) :=
              match l, m with
              | t' :: l', u' :: m' => tmap2 f t' u' :: zip l' m'
              | _, _ => []
              end) l m)
  | Scalar a, Dim _ => tmap (f a) u
  | Dim _, Scalar b => tmap (fun a => f a b) t
  end.

(** Number of axes and extents, read along the first element of each axis. *)
Fixpoint ndim {A : Type} (t : ndarray A) : nat :=
  match t with
  | Scalar _ => O
  | Dim [] => 1%nat
  | Dim (t' :: _) => S (ndim t')
  end.

Fixpoint shape {A : Type} (t : ndarray A) : list nat :=
  match t with
  | Scalar _ => []
  | Dim l => List.length l :: match l with [] => [] | t' :: _ => shape t' end
  end.

(** The elements in row-major order. *)
Fixpoint elements {A : Type} (t : ndarray A) : list A :=
  match t with
  | Scalar a => [a]
  | Dim l => flat_map elements l
  end.

(** [jnp.full(shape, v)]. *)
Fixpoint full {A : Type} (sh : list nat) (v : A) : ndarray A :=
  match sh with
  | [] => Scalar v
  | n :: sh' => Dim (repeat (full sh' v) n)
  end.

(** A rectangular array of the given shape. *)
Fixpoint has_shape {A : Type} (sh : list nat) (t : ndarray A) : Prop :=
  match t, sh with
  | Scalar _, [] => True
  | Dim l, n :: sh' =>
      List.length l = n /\
      (fix all (l : list (ndarray A)) : Prop :=
         match l with
         | [] => True
         | t' :: l' => has_shape sh' t' /\ all l'
         end) l
  | _, _ => False
  end.

Record JTensor (A : Type) : Type := mkTensor {
  dtype_of : dtype;
  data : ndarray A
}.

Arguments mkTensor {A} dtype_of data.
Arguments dtype_of {A} j.
Arguments data {A} j.

(** [x.astype(dtype)]: the values are kept, the tag changes. *)
Definition astype {A : Type} (x : JTensor A) (d : dtype) : JTensor A :=
  mkTensor d (data x).

Definition elementwise {A B : Type} (f : A -> B) (x : JTensor A) : JTensor B :=
  mkTensor (dtype_of x) (tmap f (data x)).

Definition elementwise2 {A B C : Type} (f : A -> B -> C)
    (x : JTensor A) (y : JTensor B) : JTensor C :=
  mkTensor (dtype_of x) (tmap2 f (data x) (data y)).

Section Jnp.
Context {T : Type} `{Element T}.

Definition jnp_abs (x : JTensor T) : JTensor T := elementwise abs x.
Definition jnp_floor (x : JTensor T) : JTensor T := elementwise floor x.
Definition lax_stop_gradient (x : JTensor T) : JTensor T :=
  elementwise stop_gradient x.

(** [x + y] and [x - y] on two arrays. *)
Definition jnp_add (x y : JTensor T) : JTensor T := elementwise2 add x y.
Definition jnp_sub (x y : JTensor T) : JTensor T := elementwise2 sub x y.

(** [x + c] and [x / c] for a Python scalar [c]. *)
Definition add_scalar (x : JTensor T) (c : float) : JTensor T :=
  elementwise (fun v => add v (lift c)) x.
Definition div_scalar (x : JTensor T) (c : float) : JTensor T :=
  elementwise (fun v => div v (lift c)) x.

(** [jnp.clip(x, a_min, a_max)] is [minimum(a_max, maximum(a_min, x))]. *)
Definition jnp_clip (x : JTensor T) (a_min a_max : float) : JTensor T :=
  elementwise (fun v => minimum (lift a_max) (maximum (lift a_min) v)) x.

(** [x == c], [jnp.ones_like(x)] and [jnp.where(c, x, y)]. *)
Definition jnp_eq_scalar (x : JTensor T) (c : float) : JTensor bool :=
  elementwise (fun v => eq_scalar v c) x.
Definition jnp_ones_like (x : JTensor T) : JTensor T :=
  elementwise (fun _ => lift fone) x.
Definition jnp_where (c : JTensor bool) (x y : JTensor T) : JTensor T :=
  mkTensor (dtype_of x)
    (tmap2 (fun (b : bool) (p : T * T) => if b then fst p else snd p)
           (data c) (tmap2 pair (data x) (data y))).
End Jnp.

(** [jnp.ones(shape, dtype)]. *)
Definition jnp_ones (sh : list nat) (d : dtype) : JTensor float :=
  mkTensor d (full sh fone).

(** *** [jnp.max(x, axis, keepdims=True)] *)

(** [contract_dims : Union[int, Sequence[int]]]. *)
Inductive axes : Type :=
| Axis (a : Z)
| Axes (l : list Z).

Definition axes_list (ax : axes) : list Z :=
  match ax with
  | Axis a => [a]
  | Axes l => l
  end.

Definition canonicalize_axis (nd : nat) (a : Z) : result nat :=
  if (- Z.of_nat nd <=? a) && (a <? Z.of_nat nd)
  then OK (Z.to_nat (if a <? 0 then a + Z.of_nat nd else a))
  else Raise (ValueError "axis is out of bounds for array").

Fixpoint nodupb (l : list nat) : bool :=
  match l with
  | [] => true
  | k :: l' => negb (existsb (Nat.eqb k) l') && nodupb l'
  end.

Definition canonicalize_axes (nd : nat) (ax : axes) : result (list nat) :=
  l <- sequence (map (canonicalize_axis nd) (axes_list ax)) ;;
  if nodupb l then OK l else Raise (ValueError "duplicate value in 'axis'").

(** Maximum along axis [k], which is kept with extent 1. *)
Fixpoint reduce_max_axis (k : nat) (t : ndarray float) {struct t}
    : result (ndarray float) :=
  match t with
  | Scalar _ => Raise (ValueError "axis is out of bounds for array")
  | Dim l =>
      match k with
      | O =>
          match l with
          | [] => Raise (ValueError
                    "zero-size array to reduction operation max which has no identity")
          | t0 :: l' => OK (Dim [fold_left (tmap2 maximum) l' t0])
          end
      | S k' =>
          l' <- sequence (map (reduce_max_axis k') l) ;; OK (Dim l')
      end
  end.

Fixpoint reduce_max_axes (ks : list nat) (t : ndarray float)
    : result (ndarray float) :=
  match ks with
  | [] => OK t
  | k :: ks' => t' <- reduce_max_axis k t ;; reduce_max_axes ks' t'
  end.

Definition jnp_max (x : JTensor float) (axis : axes) : result (JTensor float) :=
  ks <- canonicalize_axes (ndim (data x)) axis ;;
  d <- reduce_max_axes ks (data x) ;;
  OK (mkTensor (dtype_of x) d).

(** ** The quantizer *)

(** [_pass_through]: an expression whose value is [fn(x)] and whose
    gradient is that of [x]. *)
Definition _pass_through {T : Type} `{Element T}
    (x : JTensor T) (fn : JTensor T -> JTensor T) : JTensor T :=
  jnp_add (jnp_sub x (lax_stop_gradient x)) (lax_stop_gradient (fn x)).

Record TensorQuantizer : Type := mkQuantizer {
  precision : option Z;
  stop_scale_gradient : bool
}.

Definition setup (self : TensorQuantizer) : result unit :=
  match precision self with
  | None => OK tt
  | Some p =>
      if p <=? 23 then OK tt
      else Raise (AssertionError "Too many bits, float32 has less precision.")
  end.

Definition _get_clip_bound (self : TensorQuantizer) : result float :=
  match precision self with
  | None => Raise (TypeError "unsupported operand type(s) for ** or pow()")
  | Some p =>
      let bucket_count := Fin (pow2 p) in
      let bucket_count := fsub bucket_count fone in
      OK (fdiv bucket_count ftwo)
  end.

Definition _safe_clip_bound (self : TensorQuantizer) : result float :=
  cb_unsafe <- _get_clip_bound self ;;
  match precision self with
  | None => Raise (TypeError "unsupported operand type(s) for +")
  | Some p =>
      let cb := fsub cb_unsafe (Fin (pow2 (-20 + p))) in
      if flt cb cb_unsafe then OK cb
      else Raise (AssertionError "Internal error, epsilon too small.")
  end.

Definition get_quant_scale (self : TensorQuantizer) (x : JTensor float)
    (contract_dims : axes) (dtype_ : dtype) : result (JTensor float) :=
  match precision self with
  | None => OK (jnp_ones (repeat 1%nat (ndim (data x))) dtype_)
  | Some _ =>
      x_bound <- jnp_max (jnp_abs x) contract_dims ;;
      clip_bound <- _get_clip_bound self ;;
      let scale := div_scalar x_bound clip_bound in
      let scale :=
        if stop_scale_gradient self then
          let scale := lax_stop_gradient scale in
          jnp_where (jnp_eq_scalar scale fzero) (jnp_ones_like scale) scale
        else
          add_scalar scale (finfo_eps dtype_) in
      OK (astype scale dtype_)
  end.

(** [update] does nothing for now. *)
Definition update (self : TensorQuantizer) (x : JTensor float) : unit := tt.

Definition to_quant {T : Type} `{Element T} (self : TensorQuantizer)
    (x : JTensor T) (dtype_ : dtype) : result (JTensor T) :=
  match precision self with
  | None => OK (astype x dtype_)
  | Some _ =>
      clip_bound <- _safe_clip_bound self ;;
      let x := jnp_clip x (fopp clip_bound) clip_bound in
      let x := _pass_through (add_scalar x fhalf) jnp_floor in
      OK (astype x dtype_)
  end.

(** Induction over an array with the hypothesis on every sub-array. *)
Section NdarrayInd.
Variable A : Type.
Variable P : ndarray A -> Prop.
Hypothesis HScalar : forall a, P (Scalar a).
Hypothesis HDim : forall l, Forall P l -> P (Dim l).

Fixpoint ndarray_ind_all (t : ndarray A) : P t :=
  match t with
  | Scalar a => HScalar a
  | Dim l =>
      HDim l
        ((fix all (l : list (ndarray A)) : Forall P l :=
            match l with
            | [] => Forall_nil P
            | t' :: l' => Forall_cons t' (ndarray_ind_all t') (all l')
            end) l)
  end.
End NdarrayInd.

(** Shape after reducing axis [k] with [keepdims=True]. *)
Fixpoint keepdim (k : nat) (sh : list nat) : list nat :=
  match sh, k with
  | [], _ => []
  | _ :: sh', O => 1%nat :: sh'
  | n :: sh', S k' => n :: keepdim k' sh'
  end.

Definition keepdims (ks : list nat) (sh : list nat) : list nat :=
  fold_left (fun s k => keepdim k s) ks sh.

(** ** The quantities the properties are stated with *)

(** The bounds as the specification words them. *)
Definition GetClipBound (p : Z) : float :=
  Fin ((pow2 p - 1) / Z2Qc 2)%Qc.

Definition GetSafeClipBound (p : Z) : float :=
  fsub (GetClipBound p) (Fin (pow2 (p - 20))).

Definition is_inf (a : float) : bool :=
  match a with PInf | NInf => true | _ => false end.

(** The function [to_quant] applies to each element. *)
Definition quant_elem {T : Type} `{Element T} (sb : float) (v : T) : T :=
  let c := minimum (lift sb) (maximum (lift (fopp sb)) v) in
  let y := add c (lift fhalf) in
  add (sub y (stop_gradient y)) (stop_gradient (floor y)).


Definition quant_value (b : Qc) (v : float) : float :=
  ffloor (fadd (fmin (Fin b) (fmax (Fin (- b)) v)) fhalf).

(** The function [get_quant_scale] applies to each element of the reduced
    bound. *)
Definition scale_elem (stop : bool) (clip_bound eps : float) (m : float)
    : float :=
  let scale := fdiv m clip_bound in
  if stop then (if feqb scale fzero then fone else scale)
  else fadd scale eps.


(** Sample tensors. *)
Definition sample_x : JTensor float :=
  mkTensor float32
    (Dim [Dim [Scalar (Fin (Z2Qc 3)); Scalar (Fin (Z2Qc (-200))); Scalar fzero];
          Dim [Scalar fone; Scalar fhalf; Scalar (Fin (Z2Qc (-7)))]]).

Definition zeros_x : JTensor float :=
  mkTensor float32 (Dim [Dim [Scalar fzero; Scalar fzero];
                         Dim [Scalar fzero; Scalar fzero]]).

(** ** The two scalar methods in IEEE-754 double arithmetic

    [_get_clip_bound] and [_safe_clip_bound] compute on Python floats, which
    are binary64.  They are evaluated here with the operations of
    [SpecFloat], to compare the doubles with the rationals used above. *)

Module Binary64.

Definition prec : Z := 53.
Definition emax : Z := 1024.

(** [2.0 ** p]: the double nearest to [2^p]. *)
Definition pow2 (p : Z) : spec_float := binary_normalize prec emax 1 p false.

Definition one : spec_float := pow2 0.
Definition two : spec_float := pow2 1.

Definition _get_clip_bound (p : Z) : spec_float :=
  let bucket_count := pow2 p in
  let bucket_count := SFsub prec emax bucket_count one in
  SFdiv prec emax bucket_count two.

Definition _safe_clip_bound (p : Z) : result spec_float :=
  let cb_unsafe := _get_clip_bound p in
  let cb := SFsub prec emax cb_unsafe (pow2 (-20 + p)) in
  if SFltb cb cb_unsafe then OK cb
  else Raise (AssertionError "Internal error, epsilon too small.").

(** The extended rational a double stands for. *)
Definition to_float (x : spec_float) : float :=
  match x with
  | S754_zero _ => fzero
  | S754_infinity s => if s then NInf else PInf
  | S754_nan => NaN
  | S754_finite s m e =>
      Fin (Q2Qc (inject_Z (if s then Z.neg m else Z.pos m) * 2 ^ e)%Q)
  end.

(** The doubles of precision [p] are the rationals of the exact methods and
    the assertion holds. *)
Definition agrees (p : Z) : bool :=
  feqb (to_float (_get_clip_bound p)) (GetClipBound p) &&
  match _safe_clip_bound p with
  | OK cb => feqb (to_float cb) (GetSafeClipBound p)
  | Raise _ => false
  end.

End Binary64.

(** [lo, lo + 1, ..., lo + n - 1]. *)
Fixpoint Zseq (lo : Z) (n : nat) : list Z :=
  match n with
  | O => []
  | S n' => lo :: Zseq (lo + 1) n'
  end.

(** ** Further definitions *)

(** The safe bound as a rational. *)
Definition safe_bound_q (p : Z) : Qc :=
  ((pow2 p - 1) / Z2Qc 2 - pow2 (p - 20))%Qc.


(** The precisions accepted by [setup] on which the double arithmetic of
    the two bounds is exact. *)
Definition exact_precision (p : Z) : Prop := -34 <= p <= 23.

(** The double computation of the safe bound fails. *)
Definition binary64_raises (p : Z) : bool :=
  match Binary64._safe_clip_bound p with
  | OK _ => false
  | Raise _ => true
  end.

(** Modelled from the spec: the quantization parameters
    ([ActQuantizationParams] or [WeightQuantizationParams], declared in
    [quantization_hparams]) with the two attributes
    [create_tensor_quantizer] reads, an optional precision and the
    [stop_scale_gradient] flag. *)
Record QuantizationParams : Type := mkParams {
  params_precision : option Z;
  params_stop_scale_gradient : bool
}.

(** [pax_fiddle.Config(TensorQuantizer, name=name)] with the attributes the
    function sets: the name and the quantizer. *)
Definition create_tensor_quantizer (name : string)
    (quant_params : option QuantizationParams) : string * TensorQuantizer :=
  let tq_params := mkQuantizer None false in
  match quant_params with
  | Some qp =>
      (name, mkQuantizer (params_precision qp) (params_stop_scale_gradient qp))
  | None => (name, tq_params)
  end.

(** ** Facts about the extended rationals *)

Lemma Qc_ltb_lt (x y : Qc) : Qc_ltb x y = true <-> (x < y)%Qc.
Proof.
  unfold Qc_ltb. rewrite Qclt_alt. destruct (x ?= y)%Qc; split; congruence.
Qed.

Lemma Qc_leb_le (x y : Qc) : Qc_leb x y = true <-> (x <= y)%Qc.
Proof.
  unfold Qc_leb. rewrite Qcle_alt. destruct (x ?= y)%Qc; split; congruence.
Qed.

Lemma Qc_ltb_nlt (x y : Qc) : Qc_ltb x y = false <-> (y <= x)%Qc.
Proof.
  split; intros Hxy.
  - apply Qcnot_lt_le. rewrite <- Qc_ltb_lt. congruence.
  - destruct (Qc_ltb x y) eqn:E; [|reflexivity].
    apply Qc_ltb_lt in E. exfalso. exact (Qcle_not_lt _ _ Hxy E).
Qed.

Lemma Qc_leb_nle (x y : Qc) : Qc_leb x y = false <-> (y < x)%Qc.
Proof.
  split; intros Hxy.
  - apply Qcnot_le_lt. rewrite <- Qc_leb_le. congruence.
  - destruct (Qc_leb x y) eqn:E; [|reflexivity].
    apply Qc_leb_le in E. exfalso. exact (Qclt_not_le _ _ Hxy E).
Qed.

Lemma Qc_eq_bool_eq (x y : Qc) : Qc_eq_bool x y = true <-> x = y.
Proof.
  split; [apply Qc_eq_bool_correct|].
  intros ->. unfold Qc_eq_bool. destruct (Qc_eq_dec y y); congruence.
Qed.

(** Turn a goal on [Qc] into one on [Q] for [lra]. *)
Ltac qc_to_q :=
  unfold Qclt, Qcle, Qcminus, Qcdiv, Qcplus, Qcmult, Qcopp, Qcinv,
    Z2Qc, pow2 in *;
  cbn [this Q2Qc] in *;
  rewrite ?Qred_correct in *;
  try change (inject_Z 1) with 1%Q in *;
  try change (inject_Z 2) with 2%Q in *.

Lemma this_Q2Qc (q : Q) : (this (Q2Qc q) == q)%Q.
Proof. simpl. apply Qred_correct. Qed.

Lemma pow2_pos (p : Z) : (0 < pow2 p)%Qc.
Proof.
  unfold Qclt, pow2. rewrite !this_Q2Qc.
  apply Qpower_0_lt. reflexivity.
Qed.

Lemma Qcfloor_Z2Qc (z : Z) : Qcfloor (Z2Qc z) = z.
Proof.
  unfold Qcfloor, Z2Qc.
  assert (H : (this (Q2Qc (inject_Z z)) == inject_Z z)%Q) by apply this_Q2Qc.
  apply Z.le_antisymm.
  - rewrite <- (Qfloor_Z z) at 2. apply Qfloor_resp_le. rewrite H. apply Qle_refl.
  - rewrite <- (Qfloor_Z z) at 1. apply Qfloor_resp_le. rewrite H. apply Qle_refl.
Qed.

Lemma Qcfloor_le (x : Qc) : (Z2Qc (Qcfloor x) <= x)%Qc.
Proof.
  unfold Qcle, Z2Qc, Qcfloor. rewrite this_Q2Qc. apply Qfloor_le.
Qed.

Lemma Qclt_floor (x : Qc) : (x < Z2Qc (Qcfloor x + 1))%Qc.
Proof.
  unfold Qclt, Z2Qc, Qcfloor. rewrite this_Q2Qc. apply Qlt_floor.
Qed.


Lemma Z2Qc_lt (a b : Z) : (Z2Qc a < Z2Qc b)%Qc <-> a < b.
Proof.
  unfold Qclt, Z2Qc. rewrite !this_Q2Qc, (Zlt_Qlt a b). reflexivity.
Qed.

(** [z] is the floor of [x] as soon as [z <= x < z + 1]. *)
Lemma Qcfloor_unique (x : Qc) (z : Z) :
  (Z2Qc z <= x)%Qc -> (x < Z2Qc (z + 1))%Qc -> Qcfloor x = z.
Proof.
  intros Hle Hlt.
  pose proof (Qcfloor_le x) as H1. pose proof (Qclt_floor x) as H2.
  assert (Ha : z < Qcfloor x + 1).
  { apply Z2Qc_lt. eapply Qcle_lt_trans; eassumption. }
  assert (Hb : Qcfloor x < z + 1).
  { apply Z2Qc_lt. eapply Qcle_lt_trans; eassumption. }
  lia.
Qed.

(** ** Facts about arrays *)

Lemma tmap_tmap {A B C : Type} (f : A -> B) (g : B -> C) (t : ndarray A) :
  tmap g (tmap f t) = tmap (fun a => g (f a)) t.
Proof.
  induction t using ndarray_ind_all; simpl; [reflexivity|].
  f_equal. rewrite map_map. apply map_ext_Forall. exact H.
Qed.

Lemma tmap_ext_elements {A B : Type} (f g : A -> B) (t : ndarray A) :
  Forall (fun a => f a = g a) (elements t) -> tmap f t = tmap g t.
Proof.
  induction t using ndarray_ind_all; simpl; intros Hall.
  - inversion Hall; subst. congruence.
  - f_equal. induction H as [|t l Ht Hl IH]; simpl in *; [reflexivity|].
    apply Forall_app in Hall as [H1 H2]. f_equal; auto.
Qed.

Lemma tmap_ext {A B : Type} (f g : A -> B) (t : ndarray A) :
  (forall a, f a = g a) -> tmap f t = tmap g t.
Proof.
  intros Hfg. apply tmap_ext_elements. apply Forall_forall. auto.
Qed.

Lemma tmap2_tmap_same {A B C D : Type} (f : B -> C -> D) (g : A -> B)
    (h : A -> C) (t : ndarray A) :
  tmap2 f (tmap g t) (tmap h t) = tmap (fun a => f (g a) (h a)) t.
Proof.
  induction t using ndarray_ind_all; simpl; [reflexivity|].
  f_equal. induction H as [|t l Ht Hl IH]; simpl; [reflexivity|].
  f_equal; assumption.
Qed.

Lemma elements_tmap {A B : Type} (f : A -> B) (t : ndarray A) :
  elements (tmap f t) = map f (elements t).
Proof.
  induction t using ndarray_ind_all; simpl; [reflexivity|].
  induction H as [|t l Ht Hl IH]; simpl; [reflexivity|].
  rewrite map_app. f_equal; assumption.
Qed.

(** ** Shapes and the reduction *)

Lemma has_shape_Dim {A : Type} (n : nat) (sh : list nat) (l : list (ndarray A)) :
  has_shape (n :: sh) (Dim l) <-> List.length l = n /\ Forall (has_shape sh) l.
Proof.
  simpl. split; intros [Hn Hl]; split; try assumption.
  - clear Hn. induction l as [|t l IH]; [constructor|].
    destruct Hl as [Ht Hl]. constructor; auto.
  - clear Hn. induction Hl as [|t l Ht Hl IH]; [exact I|]. split; assumption.
Qed.

Lemma has_shape_Scalar {A : Type} (sh : list nat) (a : A) :
  has_shape sh (Scalar a) <-> sh = [].
Proof. destruct sh; simpl; split; intros; try easy. Qed.

Lemma has_shape_ndim {A : Type} (sh : list nat) (t : ndarray A) :
  has_shape sh t -> Forall (fun n => (0 < n)%nat) sh -> ndim t = List.length sh.
Proof.
  revert sh. induction t using ndarray_ind_all; intros sh Hsh Hpos.
  - apply has_shape_Scalar in Hsh. subst. reflexivity.
  - destruct sh as [|n sh]; [destruct Hsh|].
    apply has_shape_Dim in Hsh as [Hn Hl]. inversion Hpos; subst.
    destruct l as [|t l]; [simpl in *; lia|].
    inversion H as [|? ? IHt _]; subst. inversion Hl as [|? ? Ht _]; subst.
    simpl. f_equal. auto.
Qed.

Lemma has_shape_tmap {A B : Type} (f : A -> B) (sh : list nat) (t : ndarray A) :
  has_shape sh t -> has_shape sh (tmap f t).
Proof.
  revert sh. induction t using ndarray_ind_all; intros sh Hsh.
  - apply has_shape_Scalar in Hsh. subst. exact I.
  - destruct sh as [|n sh]; [destruct Hsh|].
    apply has_shape_Dim in Hsh as [Hn Hl]. cbn [tmap]. apply has_shape_Dim.
    rewrite length_map. split; [assumption|].
    apply Forall_map. rewrite Forall_forall in *. auto.
Qed.

Lemma has_shape_tmap2 {A B C : Type} (f : A -> B -> C) (sh : list nat)
    (t : ndarray A) (u : ndarray B) :
  has_shape sh t -> has_shape sh u -> has_shape sh (tmap2 f t u).
Proof.
  revert sh u. induction t using ndarray_ind_all; intros sh u Ht Hu.
  - apply has_shape_Scalar in Ht. subst. destruct u; [exact I|destruct Hu].
  - destruct sh as [|n sh]; [destruct Ht|].
    destruct u as [b|m]; [destruct Hu|].
    apply has_shape_Dim in Ht as [Hn Hl], Hu as [Hn' Hm].
    cbn [tmap2]. apply has_shape_Dim.
    subst n. revert m Hn' Hm.
    induction H as [|t l IHt Hl' IH]; intros m Hn' Hm.
    + destruct m; [split; constructor | discriminate].
    + destruct m as [|u m]; [discriminate|].
      inversion Hl as [|? ? Ht1 Hl1]; subst.
      inversion Hm as [|? ? Hu1 Hm1]; subst.
      destruct (IH Hl1 m) as [Hlen Hall]; [simpl in Hn'; lia | assumption |].
      split; [simpl; f_equal; exact Hlen|].
      constructor; [apply IHt; assumption | exact Hall].
Qed.

Lemma has_shape_fold_tmap2 {A : Type} (f : A -> A -> A) (sh : list nat)
    (l : list (ndarray A)) (t : ndarray A) :
  has_shape sh t -> Forall (has_shape sh) l ->
  has_shape sh (fold_left (tmap2 f) l t).
Proof.
  intros Ht Hl. revert t Ht. induction Hl as [|u l Hu Hl IH]; intros t Ht.
  - exact Ht.
  - simpl. apply IH. apply has_shape_tmap2; assumption.
Qed.

Lemma sequence_OK {A B : Type} (f : A -> result B) (P : A -> Prop)
    (Q : B -> Prop) (l : list A) :
  Forall (fun a => P a -> exists b, f a = OK b /\ Q b) l ->
  Forall P l ->
  exists l', sequence (map f l) = OK l' /\ List.length l' = List.length l
             /\ Forall Q l'.
Proof.
  induction 1 as [|a l Ha Hl IH]; intros HP.
  - exists []. repeat split; constructor.
  - inversion HP as [|? ? Pa Pl]; subst. destruct (Ha Pa) as (b & Eb & Qb).
    destruct (IH Pl) as (l' & El & Hlen & HQ).
    exists (b :: l'). simpl. rewrite Eb. cbn [bind]. rewrite El. cbn [bind].
    repeat split; [simpl; f_equal; exact Hlen | constructor; assumption].
Qed.

Lemma reduce_max_axis_shape (k : nat) (sh : list nat) (t : ndarray float) :
  has_shape sh t -> (k < List.length sh)%nat ->
  Forall (fun n => (0 < n)%nat) sh ->
  exists t', reduce_max_axis k t = OK t' /\ has_shape (keepdim k sh) t'.
Proof.
  revert k sh. induction t using ndarray_ind_all; intros k sh Hsh Hk Hpos.
  - apply has_shape_Scalar in Hsh. subst. simpl in Hk. lia.
  - destruct sh as [|n sh]; [destruct Hsh|].
    apply has_shape_Dim in Hsh as [Hn Hl].
    inversion Hpos as [|? ? Hn0 Hpos']; subst.
    destruct k as [|k].
    + destruct l as [|t0 l]; [simpl in *; lia|].
      eexists. split; [reflexivity|]. inversion Hl as [|? ? Ht0 Hl0]; subst.
      cbn [keepdim]. apply has_shape_Dim. split; [reflexivity|].
      constructor; [|constructor].
      apply has_shape_fold_tmap2; assumption.
    + cbn [reduce_max_axis keepdim].
      destruct (sequence_OK (reduce_max_axis k) (has_shape sh)
                  (has_shape (keepdim k sh)) l) as (l' & El & Hlen & Hl').
      * rewrite Forall_forall in H. apply Forall_forall. intros t Ht Hsh.
        apply (H t Ht); [assumption | simpl in Hk; lia | assumption].
      * assumption.
      * rewrite El. cbn [bind]. eexists. split; [reflexivity|].
        apply has_shape_Dim. split; [congruence | assumption].
Qed.

Lemma keepdim_length (k : nat) (sh : list nat) :
  List.length (keepdim k sh) = List.length sh.
Proof.
  revert k. induction sh as [|n sh IH]; intros [|k]; simpl; auto.
Qed.

Lemma keepdim_pos (k : nat) (sh : list nat) :
  Forall (fun n => (0 < n)%nat) sh ->
  Forall (fun n => (0 < n)%nat) (keepdim k sh).
Proof.
  intros Hpos. revert k. induction Hpos as [|n sh Hn Hsh IH]; intros [|k];
    simpl; constructor; auto.
Qed.

Lemma reduce_max_axes_shape (ks : list nat) (sh : list nat) (t : ndarray float) :
  has_shape sh t -> Forall (fun k => (k < List.length sh)%nat) ks ->
  Forall (fun n => (0 < n)%nat) sh ->
  exists t', reduce_max_axes ks t = OK t' /\ has_shape (keepdims ks sh) t'.
Proof.
  revert sh t. induction ks as [|k ks IH]; intros sh t Hsh Hks Hpos.
  - exists t. split; [reflexivity | exact Hsh].
  - inversion Hks as [|? ? Hk Hks']; subst.
    destruct (reduce_max_axis_shape k sh t Hsh Hk Hpos) as (t1 & E1 & Hsh1).
    destruct (IH (keepdim k sh) t1 Hsh1) as (t' & E' & Hsh').
    + rewrite keepdim_length. exact Hks'.
    + apply keepdim_pos, Hpos.
    + exists t'. simpl. rewrite E1. cbn [bind]. split; assumption.
Qed.

Lemma sequence_inv {A B : Type} (f : A -> result B) (l : list A) (l' : list B) :
  sequence (map f l) = OK l' -> Forall2 (fun a b => f a = OK b) l l'.
Proof.
  revert l'. induction l as [|a l IH]; simpl; intros l' E.
  - inversion E. constructor.
  - destruct (f a) as [b|e] eqn:Ea; [|discriminate].
    cbn [bind] in E. destruct (sequence (map f l)) as [r|e]; [|discriminate].
    cbn [bind] in E. inversion E; subst. constructor; auto.
Qed.

Lemma canonicalize_axis_lt (nd : nat) (a : Z) (k : nat) :
  canonicalize_axis nd a = OK k -> (k < nd)%nat.
Proof.
  unfold canonicalize_axis.
  destruct ((- Z.of_nat nd <=? a) && (a <? Z.of_nat nd)) eqn:E; [|discriminate].
  apply andb_true_iff in E as [E1 E2].
  apply Z.leb_le in E1. apply Z.ltb_lt in E2.
  intros H. inversion H; subst. destruct (a <? 0) eqn:E3.
  - apply Z.ltb_lt in E3. lia.
  - apply Z.ltb_ge in E3. lia.
Qed.

Lemma canonicalize_axes_lt (nd : nat) (ax : axes) (ks : list nat) :
  canonicalize_axes nd ax = OK ks -> Forall (fun k => (k < nd)%nat) ks.
Proof.
  unfold canonicalize_axes.
  destruct (sequence (map (canonicalize_axis nd) (axes_list ax))) as [l|e] eqn:E;
    [|discriminate].
  cbn [bind]. destruct (nodupb l); [|discriminate].
  intros H. inversion H; subst. apply sequence_inv in E.
  induction E as [|a k l ks' Ha Hl IH]; constructor.
  - eapply canonicalize_axis_lt; eassumption.
  - apply IH. reflexivity.
Qed.

(** On a rectangular array without empty axes, [jnp.max] with
    [keepdims=True] returns as soon as the axes are valid, and keeps every
    reduced axis with extent 1. *)
Lemma jnp_max_shape (x : JTensor float) (ax : axes) (sh : list nat)
    (ks : list nat) :
  has_shape sh (data x) -> Forall (fun n => (0 < n)%nat) sh ->
  canonicalize_axes (List.length sh) ax = OK ks ->
  exists m, jnp_max x ax = OK m /\ dtype_of m = dtype_of x /\
            has_shape (keepdims ks sh) (data m).
Proof.
  intros Hsh Hpos Hks. unfold jnp_max.
  rewrite (has_shape_ndim sh (data x) Hsh Hpos), Hks. cbn [bind].
  destruct (reduce_max_axes_shape ks sh (data x) Hsh) as (t' & E & Hsh').
  - eapply canonicalize_axes_lt; eassumption.
  - assumption.
  - rewrite E. cbn [bind]. eexists. repeat split. exact Hsh'.
Qed.

(** Elements of the results *)

Lemma elements_tmap2_Forall {A B C : Type} (f : A -> B -> C)
    (P : A -> Prop) (Q : B -> Prop) (R : C -> Prop)
    (t : ndarray A) (u : ndarray B) :
  (forall a b, P a -> Q b -> R (f a b)) ->
  Forall P (elements t) -> Forall Q (elements u) ->
  Forall R (elements (tmap2 f t u)).
Proof.
  intros Hf. revert u. induction t using ndarray_ind_all; intros u Ht Hu.
  - inversion Ht as [|? ? Pa _]; subst. destruct u as [b|m].
    + inversion Hu as [|? ? Qb _]; subst. repeat constructor. auto.
    + cbn [tmap2]. rewrite elements_tmap. apply Forall_map.
      eapply Forall_impl; [|exact Hu]. auto.
  - destruct u as [b|m].
    + inversion Hu as [|? ? Qb _]; subst.
      cbn [tmap2]. rewrite elements_tmap. apply Forall_map.
      eapply Forall_impl; [|exact Ht]. cbv beta. auto.
    + cbn [tmap2 elements] in *. revert m Hu.
      induction H as [|t l IHt Hl IH]; intros m Hu; [constructor|].
      destruct m as [|u m]; [constructor|].
      cbn [flat_map] in *. apply Forall_app in Ht as [Ht1 Ht2].
      apply Forall_app in Hu as [Hu1 Hu2]. apply Forall_app. split.
      * apply IHt; assumption.
      * apply IH; assumption.
Qed.

Lemma reduce_max_axis_elements (P : float -> Prop) (k : nat)
    (t t' : ndarray float) :
  (forall a b, P a -> P b -> P (fmax a b)) ->
  reduce_max_axis k t = OK t' ->
  Forall P (elements t) -> Forall P (elements t').
Proof.
  intros HP. revert k t'.
  induction t using ndarray_ind_all; intros k t' E Ht; [discriminate|].
  destruct k as [|k]; cbn [reduce_max_axis] in E.
  - destruct l as [|t0 l]; [discriminate|]. inversion E; subst. clear E H.
    cbn [elements flat_map] in *. rewrite app_nil_r.
    apply Forall_app in Ht as [Ht0 Hl]. revert t0 Ht0.
    induction l as [|u l IH]; intros t0 Ht0; [exact Ht0|].
    cbn [flat_map] in Hl. apply Forall_app in Hl as [Hu Hl].
    cbn [fold_left]. apply IH; [assumption|].
    eapply elements_tmap2_Forall; [apply HP | assumption | assumption].
  - destruct (sequence (map (reduce_max_axis k) l)) as [l'|e] eqn:El;
      [|discriminate].
    cbn [bind] in E. inversion E; subst. clear E.
    apply sequence_inv in El. cbn [elements] in *.
    induction El as [|t u l l' Etu Hll IH]; [constructor|].
    inversion H as [|? ? IHt Hl]; subst.
    cbn [flat_map] in *. apply Forall_app in Ht as [Ht1 Ht2].
    apply Forall_app. split.
    + eapply IHt; eassumption.
    + apply IH; assumption.
Qed.

Lemma reduce_max_axes_elements (P : float -> Prop) (ks : list nat)
    (t t' : ndarray float) :
  (forall a b, P a -> P b -> P (fmax a b)) ->
  reduce_max_axes ks t = OK t' ->
  Forall P (elements t) -> Forall P (elements t').
Proof.
  intros HP. revert t. induction ks as [|k ks IH]; intros t E Ht.
  - inversion E; subst. exact Ht.
  - cbn [reduce_max_axes] in E.
    destruct (reduce_max_axis k t) as [t1|e] eqn:E1; [|discriminate].
    cbn [bind] in E. apply (IH t1 E).
    eapply reduce_max_axis_elements; eassumption.
Qed.

Lemma jnp_max_elements (P : float -> Prop) (x m : JTensor float) (ax : axes) :
  (forall a b, P a -> P b -> P (fmax a b)) ->
  jnp_max x ax = OK m ->
  Forall P (elements (data x)) -> Forall P (elements (data m)).
Proof.
  intros HP. unfold jnp_max.
  destruct (canonicalize_axes _ ax) as [ks|e]; [|discriminate]. cbn [bind].
  destruct (reduce_max_axes ks (data x)) as [d|e] eqn:E; [|discriminate].
  cbn [bind]. intros H. inversion H; subst. cbn [data].
  eapply reduce_max_axes_elements; eassumption.
Qed.

Lemma tmap_id {A : Type} (t : ndarray A) : tmap (fun a => a) t = t.
Proof.
  induction t using ndarray_ind_all; simpl; [reflexivity|].
  f_equal. induction H as [|t l Ht Hl IH]; simpl; congruence.
Qed.

(** ** The clip bounds in closed form *)

Lemma get_clip_bound_value (p : Z) (s : bool) :
  _get_clip_bound (mkQuantizer (Some p) s) = OK (GetClipBound p).
Proof. reflexivity. Qed.

Lemma Qc_ltb_minus_pos (c e : Qc) : (0 < e)%Qc -> Qc_ltb (c + - e)%Qc c = true.
Proof.
  intros He. apply Qc_ltb_lt. revert He. qc_to_q. intros. lra.
Qed.

Lemma safe_clip_bound_value (p : Z) (s : bool) :
  _safe_clip_bound (mkQuantizer (Some p) s) = OK (GetSafeClipBound p).
Proof.
  unfold _safe_clip_bound. rewrite get_clip_bound_value.
  cbn [bind precision].
  replace (-20 + p) with (p - 20) by lia.
  unfold GetSafeClipBound, GetClipBound. cbn [fsub fadd fopp flt].
  rewrite Qc_ltb_minus_pos by apply pow2_pos. reflexivity.
Qed.

(** ** Forward value of the straight-through estimator *)

Lemma pass_through_elem (y : float) :
  is_inf y = false -> fadd (fsub y y) (ffloor y) = ffloor y.
Proof.
  destruct y as [q| | |]; simpl; try discriminate; intros _; [|reflexivity].
  f_equal. ring.
Qed.

Lemma clip_not_inf (lo hi : Qc) (v : float) :
  is_inf (fmin (Fin hi) (fmax (Fin lo) v)) = false.
Proof.
  destruct v as [q| | |]; simpl; try reflexivity.
  - destruct (Qc_leb lo q); simpl; destruct (Qc_leb hi _); reflexivity.
  - destruct (Qc_leb hi lo); reflexivity.
Qed.

Lemma add_half_not_inf (a : float) :
  is_inf a = false -> is_inf (fadd a fhalf) = false.
Proof. destruct a; simpl; congruence. Qed.


(** [to_quant] applies [quant_elem] to every element, whatever the
    elements are. *)
Lemma to_quant_elementwise {T : Type} `{Element T} (p : Z) (s : bool)
    (x : JTensor T) (d : dtype) :
  to_quant (mkQuantizer (Some p) s) x d =
  OK (mkTensor d (tmap (quant_elem (GetSafeClipBound p)) (data x))).
Proof.
  unfold to_quant. cbn [precision]. rewrite safe_clip_bound_value.
  cbn [bind]. unfold astype. do 2 f_equal.
  unfold _pass_through, jnp_add, jnp_sub, lax_stop_gradient, jnp_floor,
    add_scalar, jnp_clip, elementwise2, elementwise. cbn [dtype_of data].
  rewrite !tmap_tmap.
  set (g := fun v : T => add (minimum _ (maximum _ v)) (lift fhalf)).
  rewrite tmap2_tmap_same, tmap2_tmap_same. reflexivity.
Qed.

(** ** Gradient of [to_quant] *)


Lemma Qc_eq_bool_neq (a b : Qc) : Qc_eq_bool a b = false <-> ~ (a == b)%Q.
Proof.
  split.
  - intros E Hab. apply Qc_is_canon in Hab. apply Qc_eq_bool_eq in Hab. congruence.
  - intros Hab. destruct (Qc_eq_bool a b) eqn:E; [|reflexivity].
    apply Qc_eq_bool_eq in E. subst. exfalso. apply Hab. reflexivity.
Qed.

Lemma Qc_eq_bool_Qeq (a b : Qc) : Qc_eq_bool a b = true <-> (a == b)%Q.
Proof.
  rewrite Qc_eq_bool_eq. split; [intros ->; reflexivity | apply Qc_is_canon].
Qed.

(** Case analysis on every comparison in the goal, closing the branches
    the order facts exclude by linear arithmetic on [Q]. *)
Ltac order_facts :=
  repeat match goal with
  | H : Qc_leb _ _ = true |- _ => apply Qc_leb_le in H
  | H : Qc_leb _ _ = false |- _ => apply Qc_leb_nle in H
  | H : Qc_ltb _ _ = true |- _ => apply Qc_ltb_lt in H
  | H : Qc_ltb _ _ = false |- _ => apply Qc_ltb_nlt in H
  | H : Qc_eq_bool _ _ = true |- _ => apply Qc_eq_bool_Qeq in H
  | H : Qc_eq_bool _ _ = false |- _ => apply Qc_eq_bool_neq in H
  end.


Ltac case_compare :=
  repeat match goal with
  | |- context [Qc_leb ?a ?b] => destruct (Qc_leb a b) eqn:?
  | |- context [Qc_ltb ?a ?b] => destruct (Qc_ltb a b) eqn:?
  | |- context [Qc_eq_bool ?a ?b] => destruct (Qc_eq_bool a b) eqn:?
  end.



Lemma safe_bound_finite (p : Z) :
  GetSafeClipBound p = Fin ((pow2 p - 1) / Z2Qc 2 - pow2 (p - 20))%Qc.
Proof. reflexivity. Qed.




(** ** The scale *)

Lemma get_quant_scale_elementwise (p : Z) (s : bool) (x : JTensor float)
    (ax : axes) (d : dtype) :
  get_quant_scale (mkQuantizer (Some p) s) x ax d =
  (x_bound <- jnp_max (jnp_abs x) ax ;;
   OK (mkTensor d
         (tmap (scale_elem s (GetClipBound p) (finfo_eps d)) (data x_bound)))).
Proof.
  unfold get_quant_scale. cbn [precision stop_scale_gradient].
  destruct (jnp_max (jnp_abs x) ax) as [xb|e]; [|reflexivity].
  cbn [bind]. rewrite get_clip_bound_value. cbn [bind].
  unfold astype. do 2 f_equal. unfold scale_elem.
  destruct s.
  - unfold jnp_where, jnp_eq_scalar, jnp_ones_like, lax_stop_gradient,
      div_scalar, elementwise. cbn [data dtype_of].
    rewrite !tmap_tmap.
    rewrite tmap2_tmap_same, tmap2_tmap_same. reflexivity.
  - unfold add_scalar, div_scalar, elementwise. cbn [data dtype_of].
    rewrite tmap_tmap. reflexivity.
Qed.

Lemma pow2_gt_1 (p : Z) : 0 < p -> (1 < pow2 p)%Qc.
Proof.
  intros Hp. unfold Qclt, pow2. rewrite !this_Q2Qc.
  apply Qpower_1_lt; [reflexivity | assumption].
Qed.

Lemma pow2_lt_1 (p : Z) : p < 0 -> (pow2 p < 1)%Qc.
Proof.
  intros Hp. unfold Qclt, pow2. rewrite !this_Q2Qc.
  replace p with (- (- p)) by lia. rewrite Qpower_opp.
  assert (H1 : (1 < 2 ^ (- p))%Q) by (apply Qpower_1_lt; [reflexivity | lia]).
  assert (H0 : (0 < 2 ^ (- p))%Q) by lra.
  apply Qlt_shift_inv_r; [assumption | lra].
Qed.

Lemma clip_bound_nonzero (p : Z) :
  p <> 0 -> Qc_sgn ((pow2 p - 1) / Z2Qc 2)%Qc <> Eq.
Proof.
  intros Hp E. unfold Qc_sgn in E. apply Qceq_alt in E.
  assert (H2 : (pow2 p - 1 = 0)%Qc).
  { destruct (Qcmult_integral _ _ E) as [H|H]; [exact H|].
    exfalso. revert H. unfold Z2Qc. intros H.
    apply (f_equal this) in H. vm_compute in H. discriminate H. }
  destruct (Z.lt_total p 0) as [Hlt|[Heq|Hgt]]; [|contradiction|].
  - pose proof (pow2_lt_1 p Hlt) as H. revert H2 H. generalize (pow2 p).
    intros c H2 H. assert (c = 1)%Qc by (rewrite <- (Qcplus_0_l 1), <- H2; ring).
    subst c. exact (Qclt_not_eq _ _ H eq_refl).
  - pose proof (pow2_gt_1 p Hgt) as H. revert H2 H. generalize (pow2 p).
    intros c H2 H. assert (c = 1)%Qc by (rewrite <- (Qcplus_0_l 1), <- H2; ring).
    subst c. exact (Qclt_not_eq _ _ H eq_refl).
Qed.

Lemma scale_elem_zero (p : Z) (eps : float) :
  p <> 0 -> scale_elem true (GetClipBound p) eps fzero = fone.
Proof.
  intros Hp. unfold scale_elem, GetClipBound, fzero. cbn [fdiv].
  pose proof (clip_bound_nonzero p Hp) as Hs.
  assert (E : (0 / ((pow2 p - 1) / Z2Qc 2) = 0)%Qc).
  { unfold Qcdiv. apply Qcmult_0_l. }
  destruct (Qc_sgn _); [contradiction| |]; cbn [feqb]; rewrite E; reflexivity.
Qed.



Lemma feqb_eq (a b : float) : feqb a b = true -> a = b.
Proof.
  destruct a, b; simpl; try discriminate; try reflexivity.
  intros H. apply Qc_eq_bool_eq in H. congruence.
Qed.

Lemma Zseq_In (n : nat) (lo p : Z) :
  lo <= p < lo + Z.of_nat n -> In p (Zseq lo n).
Proof.
  revert lo. induction n as [|n IH]; intros lo Hp; [lia|].
  simpl. destruct (Z.eq_dec lo p) as [->|Hne]; [left; reflexivity|].
  right. apply IH. lia.
Qed.

(** For every precision from 1 to 23 the double arithmetic of Python is
    exact on the two bounds. *)
Lemma binary64_agrees (p : Z) :
  1 <= p <= 23 ->
  Binary64.to_float (Binary64._get_clip_bound p) = GetClipBound p /\
  exists cb, Binary64._safe_clip_bound p = OK cb /\
             Binary64.to_float cb = GetSafeClipBound p.
Proof.
  intros Hp.
  assert (Hall : forallb Binary64.agrees (Zseq 1 23) = true)
    by (vm_compute; reflexivity).
  rewrite forallb_forall in Hall.
  specialize (Hall p (Zseq_In 23 1 p ltac:(lia))).
  unfold Binary64.agrees in Hall. apply andb_true_iff in Hall as [H1 H2].
  split; [apply feqb_eq, H1|].
  destruct (Binary64._safe_clip_bound p) as [cb|e]; [|discriminate].
  exists cb. split; [reflexivity | apply feqb_eq, H2].
Qed.

Lemma fdiv_zero_not_finite (m : float) : is_finite (fdiv m fzero) = false.
Proof.
  destruct m as [q| | |]; try reflexivity.
  unfold fzero. cbn [fdiv].
  replace (Qc_sgn 0%Qc) with Eq by reflexivity.
  destruct (Qc_sgn q); reflexivity.
Qed.

Lemma scale_elem_zero_bound (s : bool) (eps : Qc) (m : float) :
  is_finite (scale_elem s fzero (Fin eps) m) = false.
Proof.
  unfold scale_elem. pose proof (fdiv_zero_not_finite m) as H.
  destruct (fdiv m fzero) as [q| | |]; try discriminate; destruct s; reflexivity.
Qed.

Lemma clip_bound_0 : GetClipBound 0 = fzero.
Proof. unfold GetClipBound, fzero. f_equal. apply Qc_is_canon. reflexivity. Qed.

Lemma finfo_eps_finite (d : dtype) : exists e, finfo_eps d = Fin e.
Proof. destruct d; eexists; reflexivity. Qed.

(** ** Forward value of one element, range and idempotence *)

Lemma quant_elem_value (b : Qc) (v : float) :
  quant_elem (Fin b) v = quant_value b v.
Proof.
  unfold quant_elem, quant_value.
  cbn [add sub lift minimum maximum floor stop_gradient float_Element fopp].
  apply pass_through_elem, add_half_not_inf, clip_not_inf.
Qed.

(** The clipped value is finite unless the input is NaN; it is at most the
    bound, and at least its opposite when the range is not empty. *)
Lemma clip_cases (b : Qc) (v : float) :
  is_nan v = false ->
  exists c, fmin (Fin b) (fmax (Fin (- b)) v) = Fin c /\
            (c <= b)%Qc /\ ((- b <= b)%Qc -> (- b <= c)%Qc) /\
            ((b < - b)%Qc -> c = b).
Proof.
  destruct v as [q| | |]; try discriminate; intros _; cbn [fmax fmin fle].
  - case_compare; cbn [fmin fle]; case_compare; eexists;
      (split; [reflexivity|]); order_facts;
      repeat split; intros; try apply Qc_is_canon; qc_to_q; lra.
  - eexists. split; [reflexivity|].
    repeat split; intros; try apply Qc_is_canon; qc_to_q; lra.
  - case_compare; eexists; (split; [reflexivity|]); order_facts;
      repeat split; intros; try apply Qc_is_canon; qc_to_q; lra.
Qed.



Lemma pow2_succ (n : Z) : (pow2 (n + 1) = Z2Qc 2 * pow2 n)%Qc.
Proof.
  apply Qc_is_canon. unfold pow2. qc_to_q.
  rewrite Qpower_plus by discriminate. simpl. ring.
Qed.

Lemma pow2_le (n m : Z) : n <= m -> (pow2 n <= pow2 m)%Qc.
Proof.
  intros Hnm. unfold pow2. qc_to_q.
  apply Qpower_le_compat_l; [assumption | discriminate].
Qed.




(** ** The properties of the quantizer *)







(** C4.  [setup] rejects precision 24, accepts precision 23 and an absent
    precision, and fails exactly when the precision exceeds 23. *)
Theorem setup_precision_check (s : bool) :
  setup (mkQuantizer (Some 24) s) =
    Raise (AssertionError "Too many bits, float32 has less precision.") /\
  setup (mkQuantizer (Some 23) s) = OK tt /\
  setup (mkQuantizer None s) = OK tt /\
  forall q : TensorQuantizer,
    (exists e, setup q = Raise e) <-> (exists p, precision q = Some p /\ 23 < p).
Proof.
  repeat split; try reflexivity.
  - intros [e He]. unfold setup in He. destruct (precision q) as [p|];
      [|discriminate].
    exists p. split; [reflexivity|].
    destruct (p <=? 23) eqn:E; [discriminate|]. apply Z.leb_gt in E. exact E.
  - intros (p & Hp & Hlt). unfold setup. rewrite Hp.
    apply Z.leb_gt in Hlt. rewrite Hlt. eexists. reflexivity.
Qed.


(** C6, as amended.  For an all-zero tensor and a precision other than 0,
    with [stop_scale_gradient] on, every element of the scale is 1. *)
Theorem zero_scale_safety (p : Z) (x : JTensor float) (ax : axes) (d : dtype)
    (sh : list nat) (ks : list nat) :
  p <> 0 ->
  Forall (fun v => v = fzero) (elements (data x)) ->
  has_shape sh (data x) -> Forall (fun n => (0 < n)%nat) sh ->
  canonicalize_axes (List.length sh) ax = OK ks ->
  exists scale,
    get_quant_scale (mkQuantizer (Some p) true) x ax d = OK scale /\
    has_shape (keepdims ks sh) (data scale) /\
    Forall (fun v => v = fone) (elements (data scale)).
Proof.
  intros Hp Hzero Hsh Hpos Hks.
  destruct (jnp_max_shape (jnp_abs x) ax sh ks) as (xb & E & _ & Hxb);
    [apply has_shape_tmap, Hsh | exact Hpos | exact Hks |].
  rewrite get_quant_scale_elementwise, E. cbn [bind].
  eexists. split; [reflexivity|]. cbn [data]. split.
  - apply has_shape_tmap, Hxb.
  - rewrite elements_tmap. apply Forall_map.
    assert (Hxb0 : Forall (fun v => v = fzero) (elements (data xb))).
    { eapply jnp_max_elements; [|exact E|].
      - intros a b -> ->. reflexivity.
      - unfold jnp_abs, elementwise. cbn [data]. rewrite elements_tmap.
        apply Forall_map. eapply Forall_impl; [|exact Hzero].
        intros v ->. reflexivity. }
    eapply Forall_impl; [|exact Hxb0]. intros v ->.
    apply scale_elem_zero, Hp.
Qed.

Lemma zero_scale_safety_witness :
  exists scale,
    get_quant_scale (mkQuantizer (Some 8) true) zeros_x (Axes [0; 1]) bfloat16
      = OK scale /\
    has_shape [1; 1]%nat (data scale) /\
    Forall (fun v => v = fone) (elements (data scale)).
Proof.
  apply (zero_scale_safety 8 zeros_x (Axes [0; 1]) bfloat16 [2; 2]%nat
           [0; 1]%nat).
  - discriminate.
  - repeat constructor.
  - simpl. intuition.
  - repeat constructor.
  - reflexivity.
Defined.

(** C6 fails as stated: precision 0 is accepted by [setup], the clip bound
    is then 0 and the scale of an all-zero tensor is 0 / 0 = NaN, not 1. *)
Lemma zero_scale_nan_at_precision_0 :
  setup (mkQuantizer (Some 0) true) = OK tt /\
  Forall (fun v => v = fzero) (elements (data zeros_x)) /\
  get_quant_scale (mkQuantizer (Some 0) true) zeros_x (Axes [0; 1]) bfloat16 =
  OK (mkTensor bfloat16 (Dim [Dim [Scalar NaN]])) /\
  NaN <> fone.
Proof.
  split; [reflexivity|]. split; [repeat constructor|].
  split; [reflexivity | discriminate].
Qed.

(** C7.  For a precision between 1 and 23 the safe bound is the clip bound
    minus [2^(p-20)], it is strictly below the clip bound and the assertion
    of [_safe_clip_bound] holds; the same is true of the doubles Python
    computes, which are these very rationals. *)
Theorem safe_clip_bound_strict (p : Z) (s : bool) :
  1 <= p <= 23 ->
  exists cb,
    _get_clip_bound (mkQuantizer (Some p) s) = OK cb /\
    _safe_clip_bound (mkQuantizer (Some p) s) =
      OK (fsub cb (Fin (pow2 (p - 20)))) /\
    flt (fsub cb (Fin (pow2 (p - 20)))) cb = true /\
    Binary64.to_float (Binary64._get_clip_bound p) = cb /\
    exists cb64,
      Binary64._safe_clip_bound p = OK cb64 /\
      Binary64.to_float cb64 = fsub cb (Fin (pow2 (p - 20))).
Proof.
  intros Hp. exists (GetClipBound p).
  split; [apply get_clip_bound_value|].
  split; [apply safe_clip_bound_value|].
  split.
  - unfold GetClipBound. cbn [fsub fadd fopp flt].
    apply Qc_ltb_minus_pos, pow2_pos.
  - apply binary64_agrees, Hp.
Qed.

Lemma safe_clip_bound_strict_witness :
  exists cb,
    _get_clip_bound (mkQuantizer (Some 8) false) = OK cb /\
    _safe_clip_bound (mkQuantizer (Some 8) false) =
      OK (fsub cb (Fin (pow2 (8 - 20)))) /\
    flt (fsub cb (Fin (pow2 (8 - 20)))) cb = true /\
    Binary64.to_float (Binary64._get_clip_bound 8) = cb /\
    exists cb64,
      Binary64._safe_clip_bound 8 = OK cb64 /\
      Binary64.to_float cb64 = fsub cb (Fin (pow2 (8 - 20))).
Proof. apply (safe_clip_bound_strict 8 false). lia. Defined.





(** C10.  [setup] accepts every precision that is zero or negative; at
    precision 0 the clip bound is 0 (also as a double), and every element
    of the scale is the result of a division by zero: an infinity or NaN. *)
Theorem nonpositive_precision_accepted :
  (forall (p : Z) (s : bool), p <= 0 -> setup (mkQuantizer (Some p) s) = OK tt) /\
  (forall s : bool, _get_clip_bound (mkQuantizer (Some 0) s) = OK fzero) /\
  Binary64.to_float (Binary64._get_clip_bound 0) = fzero /\
  (forall (s : bool) (x x_bound : JTensor float) (ax : axes) (d : dtype),
     jnp_max (jnp_abs x) ax = OK x_bound ->
     exists scale,
       get_quant_scale (mkQuantizer (Some 0) s) x ax d = OK scale /\
       data scale = tmap (scale_elem s fzero (finfo_eps d)) (data x_bound) /\
       Forall (fun v => is_finite v = false) (elements (data scale))).
Proof.
  split; [|split; [|split]].
  - intros p s Hp. unfold setup. cbn [precision].
    replace (p <=? 23) with true; [reflexivity|]. symmetry. apply Z.leb_le. lia.
  - intros s. rewrite get_clip_bound_value, clip_bound_0. reflexivity.
  - reflexivity.
  - intros s x xb ax d E. rewrite get_quant_scale_elementwise, E. cbn [bind].
    rewrite clip_bound_0. eexists. split; [reflexivity|]. cbn [data].
    split; [reflexivity|].
    rewrite elements_tmap. apply Forall_map, Forall_forall. intros m _.
    destruct (finfo_eps_finite d) as [e ->]. apply scale_elem_zero_bound.
Qed.

Lemma nonpositive_precision_accepted_witness :
  setup (mkQuantizer (Some (-1)) false) = OK tt /\
  setup (mkQuantizer (Some 0) false) = OK tt /\
  exists scale,
    get_quant_scale (mkQuantizer (Some 0) false) sample_x (Axis 1) bfloat16
      = OK scale /\
    data scale = Dim [Dim [Scalar PInf]; Dim [Scalar PInf]].
Proof.
  destruct nonpositive_precision_accepted as (H1 & _ & _ & H3).
  split; [apply H1; lia|]. split; [apply H1; lia|].
  destruct (H3 false sample_x
              (mkTensor float32
                 (Dim [Dim [Scalar (Fin (Z2Qc 200))]; Dim [Scalar (Fin (Z2Qc 7))]]))
              (Axis 1) bfloat16) as (scale & E & Hd & _).
  - vm_compute. reflexivity.
  - exists scale. split; [exact E|]. rewrite Hd. reflexivity.
Defined.

(** ** Worked examples *)

(** Ties are rounded up: 2.5 to 3, -2.5 to -2, 0.5 to 1 and -0.5 to 0. *)
Example to_quant_rounds_half_up :
  to_quant (mkQuantizer (Some 8) false)
    (mkTensor float32
       (Dim [Scalar (Fin (Q2Qc (5 # 2))); Scalar (Fin (Q2Qc (- 5 # 2)));
             Scalar fhalf; Scalar (Fin (Q2Qc (- 1 # 2)))]))
    float32 =
  OK (mkTensor float32
        (Dim [Scalar (Fin (Z2Qc 3)); Scalar (Fin (Z2Qc (-2)));
              Scalar (Fin (Z2Qc 1)); Scalar (Fin (Z2Qc 0))])).
Proof. vm_compute. reflexivity. Qed.

(** Precision 8 on [[3, -200, 0]]: the bound is 200, the clip bound 127.5
    and the scale 200 / 127.5 + 2^-7 = 10291 / 6528. *)
Example get_quant_scale_precision_8 :
  let x := mkTensor float32
             (Dim [Scalar (Fin (Z2Qc 3)); Scalar (Fin (Z2Qc (-200)));
                   Scalar fzero]) in
  jnp_max (jnp_abs x) (Axis 0) =
    OK (mkTensor float32 (Dim [Scalar (Fin (Z2Qc 200))])) /\
  _get_clip_bound (mkQuantizer (Some 8) false) = OK (Fin (Q2Qc (255 # 2))) /\
  get_quant_scale (mkQuantizer (Some 8) false) x (Axis 0) bfloat16 =
    OK (mkTensor bfloat16 (Dim [Scalar (Fin (Q2Qc (10291 # 6528)))])).
Proof.
  split; [|split]; vm_compute; reflexivity.
Qed.

(** On a one-dimensional array the reduction is the running maximum. *)
Lemma reduce_max_axis_1d (a : float) (l : list float) :
  reduce_max_axis 0 (Dim (map Scalar (a :: l))) =
  OK (Dim [Scalar (fold_left fmax l a)]).
Proof.
  cbn [map reduce_max_axis]. do 3 f_equal.
  revert a. induction l as [|b l IH]; intros a; [reflexivity|].
  cbn [map fold_left]. apply IH.
Qed.

(** ** Further properties of [to_quant] *)


Lemma to_quant_values (p : Z) (s : bool) (x : JTensor float) (d : dtype) :
  to_quant (mkQuantizer (Some p) s) x d =
  OK (mkTensor d (tmap (quant_value (safe_bound_q p)) (data x))).
Proof.
  rewrite to_quant_elementwise. do 2 f_equal. apply tmap_ext. intros v.
  rewrite safe_bound_finite. apply quant_elem_value.
Qed.


Lemma quant_value_nan (b : Qc) : quant_value b NaN = NaN.
Proof. reflexivity. Qed.





Lemma quant_value_nonpositive_precision (p : Z) (v : float) :
  p <= 0 -> is_nan v = false ->
  quant_value (safe_bound_q p) v = Fin (Z2Qc 0).
Proof.
  intros Hp Hv.
  assert (H1 : (pow2 p <= Q2Qc 1)%Qc).
  { replace (Q2Qc 1) with (pow2 0) by (apply Qc_is_canon; reflexivity).
    apply pow2_le, Hp. }
  assert (H2 : (Z2Qc 2 * pow2 (p - 20) <= pow2 p)%Qc).
  { replace p with ((p - 1) + 1) at 2 by lia. rewrite pow2_succ.
    assert (H : (pow2 (p - 20) <= pow2 (p - 1))%Qc) by (apply pow2_le; lia).
    revert H. qc_to_q. intros. lra. }
  pose proof (pow2_pos (p - 20)) as H3.
  unfold safe_bound_q in *. revert H1 H2 H3.
  generalize (pow2 p) (pow2 (p - 20)). intros a e H1 H2 H3.
  unfold quant_value.
  destruct (clip_cases ((a - 1) / Z2Qc 2 - e)%Qc v Hv) as (c & -> & _ & _ & Hc).
  rewrite Hc.
  - clear Hc. unfold fhalf. cbn [fadd ffloor]. do 2 f_equal.
    apply Qcfloor_unique;
      revert H1 H2 H3; qc_to_q; intros; try change (inject_Z 0) with 0%Q;
      try change (inject_Z (0 + 1)) with 1%Q;
      change (/ 2)%Q with (1 # 2)%Q in *; lra.
  - clear Hc. revert H1 H2 H3. qc_to_q. intros.
    change (/ 2)%Q with (1 # 2)%Q in *. lra.
Qed.
(** ** Double arithmetic far below the documented precisions *)

Lemma iter_shr_sticky (n : positive) :
  iter_pos shr_1 n (Build_shr_record 0 false true) =
  Build_shr_record 0 false true.
Proof.
  induction n as [n IH|n IH|]; cbn [iter_pos].
  - change (shr_1 (Build_shr_record 0 false true))
      with (Build_shr_record 0 false true). rewrite IH. exact IH.
  - rewrite IH. exact IH.
  - reflexivity.
Qed.

Lemma iter_shr_half (n : positive) :
  iter_pos shr_1 n (Build_shr_record 0 true false) =
  Build_shr_record 0 false true.
Proof.
  induction n as [n IH|n IH|]; cbn [iter_pos].
  - change (shr_1 (Build_shr_record 0 true false))
      with (Build_shr_record 0 false true). rewrite !iter_shr_sticky.
    reflexivity.
  - rewrite IH. apply iter_shr_sticky.
  - reflexivity.
Qed.

Lemma iter_shr_one (n : positive) :
  shr_m (iter_pos shr_1 n (Build_shr_record 1 false false)) = 0 /\
  loc_of_shr_record (iter_pos shr_1 n (Build_shr_record 1 false false))
    <> loc_Inexact Gt.
Proof.
  assert (H : iter_pos shr_1 n (Build_shr_record 1 false false) =
              Build_shr_record 0 true false \/
              iter_pos shr_1 n (Build_shr_record 1 false false) =
              Build_shr_record 0 false true).
  { induction n as [n IH|n IH|]; cbn [iter_pos].
    - right. change (shr_1 (Build_shr_record 1 false false))
        with (Build_shr_record 0 true false).
      rewrite iter_shr_half. apply iter_shr_sticky.
    - right. destruct IH as [-> | ->];
        [apply iter_shr_half | apply iter_shr_sticky].
    - left. reflexivity. }
  destruct H as [-> | ->]; split; try reflexivity; discriminate.
Qed.

(** [2.0 ** p] underflows to zero below the smallest subnormal. *)
Lemma binary64_pow2_underflow (p : Z) :
  p < -1074 -> Binary64.pow2 p = S754_zero false.
Proof.
  intros Hp. unfold Binary64.pow2, binary_normalize, binary_round.
  assert (E1 : fexp Binary64.prec Binary64.emax (Z.pos (digits2_pos 1) + p)
               = -1074).
  { unfold fexp, emin, Binary64.prec, Binary64.emax. cbn [digits2_pos]. lia. }
  rewrite E1. unfold shl_align.
  destruct (-1074 - p) as [|n|n] eqn:En; try lia.
  unfold binary_round_aux, shr_fexp. cbn [Zdigits2]. rewrite E1, En.
  unfold shr. cbn [shr_record_of_loc].
  destruct (iter_shr_one n) as [Hm Hl].
  destruct (iter_pos shr_1 n (Build_shr_record 1 false false)) as [m r s'].
  cbn [shr_m] in Hm. subst m.
  assert (E2 : round_nearest_even 0 (loc_of_shr_record (Build_shr_record 0 r s'))
               = 0).
  { revert Hl. destruct r, s'; intros Hl; try reflexivity.
    exfalso. apply Hl. reflexivity. }
  cbn [shr_m]. rewrite E2.
  replace (p + Z.pos n) with (-1074) by lia. reflexivity.
Qed.

Lemma binary64_raises_assertion (p : Z) :
  binary64_raises p = true ->
  Binary64._safe_clip_bound p =
  Raise (AssertionError "Internal error, epsilon too small.").
Proof.
  unfold binary64_raises, Binary64._safe_clip_bound.
  destruct (SFltb _ _); [discriminate | reflexivity].
Qed.

(** Below precision -34 the epsilon is absorbed by the rounding of the
    subtraction and the assertion fails. *)
Lemma binary64_raises_below (p : Z) :
  p <= -35 ->
  Binary64._safe_clip_bound p =
  Raise (AssertionError "Internal error, epsilon too small.").
Proof.
  intros Hlow. apply binary64_raises_assertion.
  destruct (Z_lt_le_dec p (-1074)) as [Hu|Hu].
  - unfold binary64_raises, Binary64._safe_clip_bound,
      Binary64._get_clip_bound.
    rewrite (binary64_pow2_underflow p Hu).
    rewrite (binary64_pow2_underflow (-20 + p)) by lia.
    vm_compute. reflexivity.
  - assert (Hall : forallb binary64_raises (Zseq (-1074) 1040) = true)
      by (vm_compute; reflexivity).
    rewrite forallb_forall in Hall. apply Hall, Zseq_In. lia.
Qed.

(** From precision -34 to 23 the doubles are the exact rationals. *)
Lemma binary64_agrees_range (p : Z) :
  -34 <= p <= 23 -> Binary64.agrees p = true.
Proof.
  intros Hp.
  assert (Hall : forallb Binary64.agrees (Zseq (-34) 58) = true)
    by (vm_compute; reflexivity).
  rewrite forallb_forall in Hall. apply Hall, Zseq_In. lia.
Qed.

Lemma binary64_exact_range (p : Z) :
  -34 <= p <= 23 ->
  exists cb, Binary64._safe_clip_bound p = OK cb /\
             Binary64.to_float cb = GetSafeClipBound p.
Proof.
  intros Hp. pose proof (binary64_agrees_range p Hp) as Hall.
  unfold Binary64.agrees in Hall. apply andb_true_iff in Hall as [_ H2].
  destruct (Binary64._safe_clip_bound p) as [cb|e]; [|discriminate].
  exists cb. split; [reflexivity | apply feqb_eq, H2].
Qed.

Lemma binary64_clip_bound_exact (p : Z) :
  -34 <= p <= 23 ->
  Binary64.to_float (Binary64._get_clip_bound p) = GetClipBound p.
Proof.
  intros Hp. pose proof (binary64_agrees_range p Hp) as Hall.
  unfold Binary64.agrees in Hall. apply andb_true_iff in Hall as [H1 _].
  apply feqb_eq, H1.
Qed.

(** ** Further properties of [get_quant_scale] *)























(** ** Further properties of the quantizer *)

Lemma pow2_lt (n m : Z) : n < m -> (pow2 n < pow2 m)%Qc.
Proof.
  intros Hnm. unfold pow2. qc_to_q.
  apply Qpower_lt_compat_l; [assumption | reflexivity].
Qed.

(** X1.  On the precisions where the doubles are exact, the clip bound
    grows strictly with the precision. *)
Theorem get_clip_bound_increasing (p1 p2 : Z) (s : bool) :
  exact_precision p1 -> exact_precision p2 -> p1 < p2 ->
  exists c1 c2,
    _get_clip_bound (mkQuantizer (Some p1) s) = OK (Fin c1) /\
    _get_clip_bound (mkQuantizer (Some p2) s) = OK (Fin c2) /\
    Binary64.to_float (Binary64._get_clip_bound p1) = Fin c1 /\
    Binary64.to_float (Binary64._get_clip_bound p2) = Fin c2 /\
    (c1 < c2)%Qc.
Proof.
  intros E1 E2 Hp. do 2 eexists. split; [reflexivity|]. split; [reflexivity|].
  split; [apply (binary64_clip_bound_exact p1 E1)|].
  split; [apply (binary64_clip_bound_exact p2 E2)|].
  pose proof (pow2_lt p1 p2 Hp) as H. revert H.
  generalize (pow2 p1) (pow2 p2). intros a b H. revert H. qc_to_q. intros.
  change (/ 2)%Q with (1 # 2)%Q. lra.
Qed.

Lemma get_clip_bound_increasing_witness :
  exists c1 c2,
    _get_clip_bound (mkQuantizer (Some 4) false) = OK (Fin c1) /\
    _get_clip_bound (mkQuantizer (Some 8) false) = OK (Fin c2) /\
    Binary64.to_float (Binary64._get_clip_bound 4) = Fin c1 /\
    Binary64.to_float (Binary64._get_clip_bound 8) = Fin c2 /\
    (c1 < c2)%Qc.
Proof.
  apply (get_clip_bound_increasing 4 8 false); unfold exact_precision; lia.
Defined.

(** X2.  On the precisions where the doubles are exact, the clip bound has
    the sign of the precision: it is positive exactly for a positive
    precision and zero exactly at precision 0. *)
Theorem get_clip_bound_sign (p : Z) (s : bool) :
  exact_precision p ->
  exists c,
    _get_clip_bound (mkQuantizer (Some p) s) = OK (Fin c) /\
    Binary64.to_float (Binary64._get_clip_bound p) = Fin c /\
    ((0 < c)%Qc <-> 0 < p) /\ (c = 0%Qc <-> p = 0) /\ ((c < 0)%Qc <-> p < 0).
Proof.
  intros Ex. eexists. split; [reflexivity|].
  split; [apply (binary64_clip_bound_exact p Ex)|].
  assert (H1 : 0 < p -> (0 < (pow2 p - 1) / Z2Qc 2)%Qc).
  { intros Hp. pose proof (pow2_gt_1 p Hp) as H. revert H.
    generalize (pow2 p). intros a H. revert H. qc_to_q. intros.
    change (/ 2)%Q with (1 # 2)%Q. lra. }
  assert (H2 : p < 0 -> ((pow2 p - 1) / Z2Qc 2 < 0)%Qc).
  { intros Hp. pose proof (pow2_lt_1 p Hp) as H. revert H.
    generalize (pow2 p). intros a H. revert H. qc_to_q. intros.
    change (/ 2)%Q with (1 # 2)%Q. lra. }
  assert (H3 : p = 0 -> ((pow2 p - 1) / Z2Qc 2 = 0)%Qc).
  { intros ->. apply Qc_is_canon. reflexivity. }
  destruct (Z.lt_total p 0) as [Hp|[Hp|Hp]].
  - specialize (H2 Hp). repeat split; intros H; try lia; try assumption.
    + exfalso. exact (Qclt_not_le _ _ H (Qclt_le_weak _ _ H2)).
    + exfalso. apply (Qclt_not_eq _ _ H2). exact H.
  - specialize (H3 Hp). repeat split; intros H; try lia; try assumption.
    + exfalso. apply (Qclt_not_eq _ _ H). symmetry. exact H3.
    + exfalso. apply (Qclt_not_eq _ _ H). exact H3.
  - specialize (H1 Hp). repeat split; intros H; try lia; try assumption.
    + exfalso. apply (Qclt_not_eq _ _ H1). symmetry. exact H.
    + exfalso. exact (Qclt_not_le _ _ H (Qclt_le_weak _ _ H1)).
Qed.

Lemma get_clip_bound_sign_witness :
  exists c,
    _get_clip_bound (mkQuantizer (Some 8) false) = OK (Fin c) /\
    Binary64.to_float (Binary64._get_clip_bound 8) = Fin c /\
    ((0 < c)%Qc <-> 0 < 8) /\ (c = 0%Qc <-> 8 = 0) /\ ((c < 0)%Qc <-> 8 < 0).
Proof. apply (get_clip_bound_sign 8 false). unfold exact_precision. lia. Defined.

Lemma shape_tmap {A B : Type} (f : A -> B) (t : ndarray A) :
  shape (tmap f t) = shape t.
Proof.
  induction t using ndarray_ind_all; simpl; [reflexivity|].
  rewrite length_map. f_equal.
  destruct H as [|t l Ht Hl]; simpl; auto.
Qed.

(** X3.  Without a precision, or with one on which the doubles are
    exact, [to_quant] returns a tensor of the shape of the input and of the
    requested dtype, for forward values as for dual numbers. *)
Theorem to_quant_preserves_shape {T : Type} `{Element T}
    (self : TensorQuantizer) (x : JTensor T) (d : dtype) :
  match precision self with
  | Some p => exact_precision p
  | None => True
  end ->
  exists y, to_quant self x d = OK y /\
            dtype_of y = d /\ shape (data y) = shape (data x).
Proof.
  intros _. destruct self as [[p|] s].
  - rewrite to_quant_elementwise. eexists. split; [reflexivity|].
    split; [reflexivity | apply shape_tmap].
  - eexists. split; [reflexivity|]. split; reflexivity.
Qed.

Lemma to_quant_preserves_shape_witness :
  exists y, to_quant (mkQuantizer (Some 8) false) sample_x bfloat16 = OK y /\
            dtype_of y = bfloat16 /\ shape (data y) = shape (data sample_x).
Proof.
  apply (to_quant_preserves_shape (mkQuantizer (Some 8) false) sample_x
           bfloat16).
  cbn. unfold exact_precision. lia.
Defined.













Lemma ndim_tmap {A B : Type} (f : A -> B) (t : ndarray A) :
  ndim (tmap f t) = ndim t.
Proof.
  induction t using ndarray_ind_all; simpl; [reflexivity|].
  destruct H as [|t l Ht Hl]; simpl; auto.
Qed.

(** X9.  A precision from -34 to 0, which [setup] accepts, gives an empty
    clip range: the doubles of the safe bound are exact and negative, and
    every input without NaN is quantized to zero. *)
Theorem to_quant_nonpositive_precision (p : Z) (s : bool) (x : JTensor float)
    (d : dtype) :
  -34 <= p <= 0 ->
  Forall (fun v => is_nan v = false) (elements (data x)) ->
  setup (mkQuantizer (Some p) s) = OK tt /\
  (exists cb, Binary64._safe_clip_bound p = OK cb /\
              Binary64.to_float cb = GetSafeClipBound p) /\
  flt (GetSafeClipBound p) fzero = true /\
  to_quant (mkQuantizer (Some p) s) x d =
  OK (mkTensor d (tmap (fun _ => Fin (Z2Qc 0)) (data x))).
Proof.
  intros Hp Hx. split; [|split; [|split]].
  - unfold setup. cbn [precision].
    replace (p <=? 23) with true; [reflexivity|]. symmetry. apply Z.leb_le. lia.
  - apply binary64_exact_range. lia.
  - rewrite safe_bound_finite. unfold fzero. cbn [flt]. apply Qc_ltb_lt.
    assert (H1 : (pow2 p <= Q2Qc 1)%Qc).
    { replace (Q2Qc 1) with (pow2 0) by (apply Qc_is_canon; reflexivity).
      apply pow2_le. lia. }
    pose proof (pow2_pos (p - 20)) as H3. revert H1 H3.
    generalize (pow2 p) (pow2 (p - 20)). intros a e H1 H3. revert H1 H3.
    qc_to_q. intros. change (/ 2)%Q with (1 # 2)%Q. lra.
  - rewrite to_quant_values. do 2 f_equal. apply tmap_ext_elements.
    eapply Forall_impl; [|exact Hx]. intros v Hv.
    apply quant_value_nonpositive_precision; [lia | exact Hv].
Qed.

Lemma to_quant_nonpositive_precision_witness :
  to_quant (mkQuantizer (Some 0) false)
    (mkTensor float32 (Dim [Scalar (Fin (Z2Qc 300)); Scalar NInf])) bfloat16 =
  OK (mkTensor bfloat16 (Dim [Scalar (Fin (Z2Qc 0)); Scalar (Fin (Z2Qc 0))])).
Proof.
  apply (to_quant_nonpositive_precision 0 false
           (mkTensor float32 (Dim [Scalar (Fin (Z2Qc 300)); Scalar NInf]))
           bfloat16).
  - lia.
  - repeat constructor.
Defined.

Lemma pass_through_elem_any (f : float -> float) (v : float) :
  fadd (fsub v v) (f v) = if is_finite v then f v else NaN.
Proof.
  destruct v as [q| | |]; cbn [is_finite fsub fopp fadd]; try reflexivity.
  replace (q + - q)%Qc with 0%Qc by ring.
  destruct (f (Fin q)) as [r| | |]; try reflexivity.
  f_equal. ring.
Qed.

(** X10.  For any element-wise function [fn], [_pass_through(x, fn)] has
    the value of [fn(x)] at every finite element and NaN at an infinite or
    NaN element, and its tangent is the tangent of [x]. *)
Theorem pass_through_any_function (f : float -> float) (g : dual -> dual)
    (x : JTensor float) (y : JTensor dual) :
  _pass_through x (elementwise f) =
    elementwise (fun v => if is_finite v then f v else NaN) x /\
  elementwise tangent (_pass_through y (elementwise g)) = elementwise tangent y.
Proof.
  split.
  - unfold _pass_through, jnp_add, jnp_sub, lax_stop_gradient,
      elementwise2, elementwise. cbn [dtype_of data]. f_equal.
    rewrite tmap_tmap. rewrite <- (tmap_id (data x)) at 1.
    rewrite tmap2_tmap_same, tmap2_tmap_same.
    apply tmap_ext. intros v. cbv beta.
    cbn [add sub stop_gradient float_Element].
    exact (pass_through_elem_any f v).
  - unfold _pass_through, jnp_add, jnp_sub, lax_stop_gradient,
      elementwise2, elementwise. cbn [dtype_of data]. f_equal.
    rewrite tmap_tmap. rewrite <- (tmap_id (data y)) at 1.
    rewrite tmap2_tmap_same, tmap2_tmap_same, tmap_tmap.
    apply tmap_ext. intros [v t]. cbv beta.
    cbn [add sub stop_gradient dual_Element tangent primal].
    destruct t as [q| | |]; try reflexivity.
    unfold fzero. cbn [fsub fadd fopp]. f_equal. ring.
Qed.

(** X11.  With a precision that [setup] accepts, [get_quant_scale] fails
    exactly when the reduction over [contract_dims] fails, with the same
    exception; without a precision it never fails, whatever [contract_dims]
    is. *)
Theorem get_quant_scale_failure (p : Z) (s : bool) (x : JTensor float)
    (ax : axes) (d : dtype) :
  setup (mkQuantizer (Some p) s) = OK tt ->
  (forall e, get_quant_scale (mkQuantizer (Some p) s) x ax d = Raise e <->
             jnp_max (jnp_abs x) ax = Raise e) /\
  (exists scale, get_quant_scale (mkQuantizer None s) x ax d = OK scale).
Proof.
  intros _. split.
  - intros e. rewrite get_quant_scale_elementwise.
    destruct (jnp_max (jnp_abs x) ax) as [xb|e']; cbn [bind].
    + split; discriminate.
    + reflexivity.
  - eexists. reflexivity.
Qed.

Lemma get_quant_scale_failure_witness :
  (forall e,
     get_quant_scale (mkQuantizer (Some 8) true) sample_x (Axes [0; 0])
       bfloat16 = Raise e <->
     jnp_max (jnp_abs sample_x) (Axes [0; 0]) = Raise e) /\
  (exists scale,
     get_quant_scale (mkQuantizer None true) sample_x (Axes [0; 0]) bfloat16
       = OK scale).
Proof. apply (get_quant_scale_failure 8 true). reflexivity. Defined.

Lemma canonicalize_axis_out_of_bounds (nd : nat) (a : Z) :
  a < - Z.of_nat nd \/ Z.of_nat nd <= a ->
  canonicalize_axis nd a = Raise (ValueError "axis is out of bounds for array").
Proof.
  intros Ha. unfold canonicalize_axis.
  replace ((- Z.of_nat nd <=? a) && (a <? Z.of_nat nd)) with false;
    [reflexivity|].
  symmetry. apply andb_false_iff. destruct Ha as [Ha|Ha].
  - left. apply Z.leb_gt. exact Ha.
  - right. apply Z.ltb_ge. exact Ha.
Qed.

(** X12.  An axis outside [-ndim, ndim) makes [get_quant_scale] raise the
    out-of-bounds [ValueError] when a precision is set, whatever the tensor
    holds. *)
Theorem get_quant_scale_axis_out_of_bounds (p : Z) (s : bool)
    (x : JTensor float) (a : Z) (d : dtype) :
  a < - Z.of_nat (ndim (data x)) \/ Z.of_nat (ndim (data x)) <= a ->
  get_quant_scale (mkQuantizer (Some p) s) x (Axis a) d =
  Raise (ValueError "axis is out of bounds for array").
Proof.
  intros Ha. rewrite get_quant_scale_elementwise. unfold jnp_max.
  unfold jnp_abs, elementwise. cbn [data]. rewrite ndim_tmap.
  unfold canonicalize_axes. cbn [axes_list map sequence].
  rewrite (canonicalize_axis_out_of_bounds _ a Ha). reflexivity.
Qed.

Lemma get_quant_scale_axis_out_of_bounds_witness :
  get_quant_scale (mkQuantizer (Some 8) false) sample_x (Axis 2) bfloat16 =
  Raise (ValueError "axis is out of bounds for array").
Proof.
  apply get_quant_scale_axis_out_of_bounds. right. vm_compute. discriminate.
Defined.






(** X15.  Without quantization parameters [create_tensor_quantizer] makes
    a disabled quantizer, for which [to_quant] is the cast and the scale is
    ones; with parameters it copies both attributes, so that [setup] fails
    exactly when the precision of the parameters exceeds 23. *)
Theorem create_tensor_quantizer_config (name : string)
    (qp : QuantizationParams) (x : JTensor float) (ax : axes) (d : dtype) :
  let off := snd (create_tensor_quantizer name None) in
  let on := snd (create_tensor_quantizer name (Some qp)) in
  fst (create_tensor_quantizer name None) = name /\
  fst (create_tensor_quantizer name (Some qp)) = name /\
  setup off = OK tt /\
  to_quant off x d = OK (astype x d) /\
  get_quant_scale off x ax d =
    OK (jnp_ones (repeat 1%nat (ndim (data x))) d) /\
  precision on = params_precision qp /\
  stop_scale_gradient on = params_stop_scale_gradient qp /\
  ((exists e, setup on = Raise e) <->
   (exists p, params_precision qp = Some p /\ 23 < p)).
Proof.
  cbn. repeat split.
  - intros [e He]. unfold setup in He. cbn [precision] in He.
    destruct (params_precision qp) as [p|]; [|discriminate].
    exists p. split; [reflexivity|].
    destruct (p <=? 23) eqn:E; [discriminate|]. apply Z.leb_gt in E. exact E.
  - intros (p & Hp & Hlt). unfold setup. cbn [precision]. rewrite Hp.
    apply Z.leb_gt in Hlt. rewrite Hlt. eexists. reflexivity.
Qed.

(** X16.  On the empty one-dimensional tensor [to_quant] returns the empty
    tensor, whereas [get_quant_scale] with a precision set raises: the
    maximum over an empty axis has no identity. *)
Theorem empty_tensor (p : Z) (s : bool) (dt d : dtype) :
  exact_precision p ->
  to_quant (mkQuantizer (Some p) s) (mkTensor dt (Dim (@nil (ndarray float)))) d
    = OK (mkTensor d (Dim [])) /\
  get_quant_scale (mkQuantizer (Some p) s)
    (mkTensor dt (Dim (@nil (ndarray float)))) (Axis 0) d =
  Raise (ValueError
    "zero-size array to reduction operation max which has no identity").
Proof.
  intros _. split.
  - rewrite to_quant_values. reflexivity.
  - rewrite get_quant_scale_elementwise. reflexivity.
Qed.

Lemma empty_tensor_witness :
  to_quant (mkQuantizer (Some 8) false)
    (mkTensor float32 (Dim (@nil (ndarray float)))) bfloat16
    = OK (mkTensor bfloat16 (Dim [])) /\
  get_quant_scale (mkQuantizer (Some 8) false)
    (mkTensor float32 (Dim (@nil (ndarray float)))) (Axis 0) bfloat16 =
  Raise (ValueError
    "zero-size array to reduction operation max which has no identity").
Proof.
  apply (empty_tensor 8 false float32 bfloat16). unfold exact_precision. lia.
Defined.

(** X17.  In double arithmetic, as Python computes it, [_safe_clip_bound]
    returns exactly the clip bound minus [2^(p-20)] for every precision from
    -34 to 23 and fails its assertion for every precision below -34; [setup]
    accepts all of these precisions. *)
Theorem binary64_safe_clip_bound_domain (p : Z) :
  p <= 23 ->
  setup (mkQuantizer (Some p) false) = OK tt /\
  (p <= -35 ->
   Binary64._safe_clip_bound p =
   Raise (AssertionError "Internal error, epsilon too small.")) /\
  (-34 <= p ->
   exists cb, Binary64._safe_clip_bound p = OK cb /\
              Binary64.to_float cb = GetSafeClipBound p).
Proof.
  intros Hp. split; [|split].
  - unfold setup. cbn [precision].
    replace (p <=? 23) with true; [reflexivity|]. symmetry. apply Z.leb_le, Hp.
  - apply binary64_raises_below.
  - intros Hlow. apply binary64_exact_range. lia.
Qed.

Lemma binary64_safe_clip_bound_domain_witness :
  setup (mkQuantizer (Some (-40)) false) = OK tt /\
  Binary64._safe_clip_bound (-40) =
  Raise (AssertionError "Internal error, epsilon too small.").
Proof.
  destruct (binary64_safe_clip_bound_domain (-40)) as (H1 & H2 & _); [lia|].
  split; [exact H1 | apply H2; lia].
Defined.

